(** * Incremental Text Reader: the line-reveal state machine of [src/app/page.tsx]

    The React component [IncrementalReader] keeps its state in ten [useState]
    cells.  Its handlers ([processText], [handleKeyDown], [resetReader],
    [toggleFullscreen], the document-level key listener and the setters wired
    straight to widgets) are embedded below as functions on a record of those
    cells.  A handler reads the cells of the render it was created in and
    queues writes; the next render sees all of them.  Hence every handler
    reads only its argument state and returns the state after its writes.

    JavaScript strings are sequences of UTF-16 code units, and
    [String.prototype.trim] removes code units far outside ASCII, so a string
    is a list of code units here. *)

From Stdlib Require Import String Ascii.
From Stdlib Require Import List NArith Bool Arith Lia.
Import ListNotations.

(** ** The JavaScript built-ins the component calls *)

Module JS.

Definition code_unit := N.
Definition jsstring := list code_unit.

(** An ASCII literal of the source text, as code units. *)
Definition str (s : string) : jsstring :=
  map N_of_ascii (list_ascii_of_string s).

(** The code unit of the source's ["\n"]. *)
Definition LF : code_unit := 10%N.

(** [a === b] on strings. *)
Fixpoint eqb (a b : jsstring) : bool :=
  match a, b with
  | [], [] => true
  | x :: a', y :: b' => N.eqb x y && eqb a' b'
  | _, _ => false
  end.

(** Truthiness of a string: only the empty string is falsy. *)
Definition truthy (s : jsstring) : bool :=
  match s with
  | [] => false
  | _ :: _ => true
  end.

(** ECMAScript WhiteSpace and LineTerminator code points, the set that
    [trim] strips: TAB, LF, VT, FF, CR, SP, NBSP, the Unicode space
    separators, LS, PS and the byte order mark. *)
Definition is_white_space (c : code_unit) : bool :=
  ((0x09 <=? c) && (c <=? 0x0D)
   || (c =? 0x20) || (c =? 0xA0) || (c =? 0x1680)
   || (0x2000 <=? c) && (c <=? 0x200A)
   || (c =? 0x2028) || (c =? 0x2029) || (c =? 0x202F)
   || (c =? 0x205F) || (c =? 0x3000) || (c =? 0xFEFF))%N.

(** [s.trimStart()] *)
Fixpoint trimStart (s : jsstring) : jsstring :=
  match s with
  | [] => []
  | c :: s' => if is_white_space c then trimStart s' else s
  end.

(** [s.trimEnd()] *)
Definition trimEnd (s : jsstring) : jsstring :=
  rev (trimStart (rev s)).

(** [s.trim()] *)
Definition trim (s : jsstring) : jsstring :=
  trimEnd (trimStart s).

(** [s.split(sep)] for a separator of one code unit and no limit: the
    pieces between consecutive occurrences of [sep]; [n] occurrences give
    [n + 1] pieces, and the empty string gives one empty piece. *)
Fixpoint split (sep : code_unit) (s : jsstring) : list jsstring :=
  match s with
  | [] => [[]]
  | c :: s' =>
      if N.eqb c sep then [] :: split sep s'
      else match split sep s' with
           | seg :: rest => (c :: seg) :: rest
           | [] => [[c]]
           end
  end.

(** [xs.join(sep)] *)
Fixpoint join (sep : jsstring) (xs : list jsstring) : jsstring :=
  match xs with
  | [] => []
  | x :: rest =>
      match rest with
      | [] => x
      | _ :: _ => x ++ sep ++ join sep rest
      end
  end.

(** [xs[i]]: [None] stands for [undefined], the result of reading at or
    past [xs.length]. *)
Definition get (xs : list jsstring) (i : nat) : option jsstring :=
  nth_error xs i.

(** [v || ""] for [v] a string or [undefined]. *)
Definition or_empty (v : option jsstring) : jsstring :=
  match v with
  | Some s => if truthy s then s else []
  | None => []
  end.

(** A string that is empty or holds white space only. *)
Definition blank (s : jsstring) : bool := forallb is_white_space s.

End JS.

Import JS.

(** ** Tokenizer: the pipeline inside [processText] *)

(** [inputText.split("\n").map((line) => line.trim()).filter((line) => line.length > 0)] *)
Definition tokenize (inputText : jsstring) : list jsstring :=
  filter (fun line => 0 <? length line)
         (map (fun line => trim line) (split LF inputText)).

(** The tokenizer as the specification words it: walk the raw text; a
    line-break character closes the segment collected so far; a closed segment
    is trimmed and kept unless it became empty.  [cur] holds the open segment,
    last character first. *)
Definition emit (segment : jsstring) (rest : list jsstring) : list jsstring :=
  match trim segment with
  | [] => rest
  | c :: t => (c :: t) :: rest
  end.

Fixpoint tokenize_scan (cur : jsstring) (raw : jsstring) : list jsstring :=
  match raw with
  | [] => emit (rev cur) []
  | c :: raw' =>
      if N.eqb c LF then emit (rev cur) (tokenize_scan [] raw')
      else tokenize_scan (c :: cur) raw'
  end.

Definition tokenize_spec (raw : jsstring) : list jsstring :=
  tokenize_scan [] raw.

(** ** Component state: the ten [useState] cells

    [currentLineIndex] is only ever written with [0] or with its old value
    plus one, below [lines.length]; it is a natural number here. *)

Record State := mkState {
  inputText : jsstring;
  displayedText : jsstring;
  currentLine : jsstring;
  lines : list jsstring;
  currentLineIndex : nat;
  activeTab : jsstring;
  isRTL : bool;
  isMarkdown : bool;
  isFullscreen : bool;
  isFocusMode : bool
}.

(** The values passed to [useState] on the first render. *)
Definition initialState : State :=
  {| inputText := [];
     displayedText := [];
     currentLine := [];
     lines := [];
     currentLineIndex := 0;
     activeTab := str "input";
     isRTL := true;
     isMarkdown := true;
     isFullscreen := false;
     isFocusMode := true |}.

(** The setters returned by [useState]. *)
Definition setInputText (v : jsstring) (s : State) : State :=
  mkState v (displayedText s) (currentLine s) (lines s) (currentLineIndex s)
          (activeTab s) (isRTL s) (isMarkdown s) (isFullscreen s) (isFocusMode s).

Definition setDisplayedText (v : jsstring) (s : State) : State :=
  mkState (inputText s) v (currentLine s) (lines s) (currentLineIndex s)
          (activeTab s) (isRTL s) (isMarkdown s) (isFullscreen s) (isFocusMode s).

Definition setCurrentLine (v : jsstring) (s : State) : State :=
  mkState (inputText s) (displayedText s) v (lines s) (currentLineIndex s)
          (activeTab s) (isRTL s) (isMarkdown s) (isFullscreen s) (isFocusMode s).

Definition setLines (v : list jsstring) (s : State) : State :=
  mkState (inputText s) (displayedText s) (currentLine s) v (currentLineIndex s)
          (activeTab s) (isRTL s) (isMarkdown s) (isFullscreen s) (isFocusMode s).

Definition setCurrentLineIndex (v : nat) (s : State) : State :=
  mkState (inputText s) (displayedText s) (currentLine s) (lines s) v
          (activeTab s) (isRTL s) (isMarkdown s) (isFullscreen s) (isFocusMode s).

Definition setActiveTab (v : jsstring) (s : State) : State :=
  mkState (inputText s) (displayedText s) (currentLine s) (lines s)
          (currentLineIndex s) v (isRTL s) (isMarkdown s) (isFullscreen s)
          (isFocusMode s).

Definition setIsRTL (v : bool) (s : State) : State :=
  mkState (inputText s) (displayedText s) (currentLine s) (lines s)
          (currentLineIndex s) (activeTab s) v (isMarkdown s) (isFullscreen s)
          (isFocusMode s).

Definition setIsMarkdown (v : bool) (s : State) : State :=
  mkState (inputText s) (displayedText s) (currentLine s) (lines s)
          (currentLineIndex s) (activeTab s) (isRTL s) v (isFullscreen s)
          (isFocusMode s).

Definition setIsFullscreen (v : bool) (s : State) : State :=
  mkState (inputText s) (displayedText s) (currentLine s) (lines s)
          (currentLineIndex s) (activeTab s) (isRTL s) (isMarkdown s) v
          (isFocusMode s).

Definition setIsFocusMode (v : bool) (s : State) : State :=
  mkState (inputText s) (displayedText s) (currentLine s) (lines s)
          (currentLineIndex s) (activeTab s) (isRTL s) (isMarkdown s)
          (isFullscreen s) v.

(** ** Handlers *)

(** The part of a keyboard event the handlers read. *)
Record KeyboardEvent := mkKey { key : jsstring }.

(** [processText]: the guard on blank input, the tokenizer, then six writes. *)
Definition processText (s : State) : State :=
  if negb (truthy (trim (inputText s))) then s
  else
    let textLines := tokenize (inputText s) in
    setIsFullscreen true
      (setActiveTab (str "reader")
        (setCurrentLine (or_empty (get textLines 0))
          (setDisplayedText []
            (setCurrentLineIndex 0
              (setLines textLines s))))).

(** [handleKeyDown].  [setCurrentLine(lines[nextIndex])] stores whatever the
    array read returns; a read outside the array returns [undefined], which
    is no string, so the handler's result is [None] in that case.
    [e.preventDefault()] touches the event only and is left out. *)
Definition handleKeyDown (e : KeyboardEvent) (s : State) : option State :=
  if negb (eqb (activeTab s) (str "reader")) && negb (isFullscreen s) then Some s
  else if eqb (key e) (str "Tab") || eqb (key e) (str " ") then
    if currentLineIndex s <? length (lines s) then
      let s1 :=
        if truthy (displayedText s)
        then setDisplayedText (displayedText s ++ [LF] ++ currentLine s) s
        else setDisplayedText (currentLine s) s in
      let nextIndex := currentLineIndex s + 1 in
      let s2 := setCurrentLineIndex nextIndex s1 in
      if nextIndex <? length (lines s) then
        match get (lines s) nextIndex with
        | Some line => Some (setCurrentLine line s2)
        | None => None
        end
      else Some (setCurrentLine [] s2)
    else Some s
  else if eqb (key e) (str "Escape") then Some (setIsFullscreen false s)
  else Some s.

(** [resetReader] *)
Definition resetReader (s : State) : State :=
  setCurrentLine (or_empty (get (lines s) 0))
    (setCurrentLineIndex 0
      (setDisplayedText [] s)).

(** [toggleFullscreen] *)
Definition toggleFullscreen (s : State) : State :=
  setIsFullscreen (negb (isFullscreen s)) s.

(** [handleDocumentKeyDown], the listener installed on [document]. *)
Definition handleDocumentKeyDown (e : KeyboardEvent) (s : State) : State :=
  if eqb (key e) (str "Escape") && isFullscreen s then setIsFullscreen false s
  else s.

(** ** Rendering

    What the component returns is a tree of elements.  Only the parts that
    depend on the reveal cells are embedded: the content of the inline
    reader ([renderContent]), the content of the fullscreen reader, and the
    conditions that show or disable a surface. *)

(** A rendered child: a string put in braces, the markdown renderer applied
    to a string, or an element with its tag, the name of the ref attached to
    it, its class names and its children. *)
Unset Elimination Schemes.
Inductive Node :=
| StringChild (s : jsstring)
| ReactMarkdown (children : jsstring)
| Element (tag : string) (ref : option string) (className : string)
          (children : list Node).
Set Elimination Schemes.

(** [{text && node}]: the node when [text] is truthy, else [text] itself,
    which is the empty string. *)
Definition and_then (text : jsstring) (node : Node) : Node :=
  if truthy text then node else StringChild text.

(** [renderContent] *)
Definition renderContent (s : State) : Node :=
  if isMarkdown s then
    Element "div" None ""
      [and_then (displayedText s) (ReactMarkdown (displayedText s));
       and_then (currentLine s)
         (Element "mark" (Some "currentLineRef"%string) "block mt-2 font-bold"
            [ReactMarkdown (currentLine s)])]
  else
    Element "div" None "whitespace-pre-line"
      [StringChild (displayedText s);
       and_then (currentLine s)
         (Element "mark" (Some "currentLineRef"%string) "block mt-2 font-bold"
            [StringChild (currentLine s)])].

(** The content of the fullscreen reader, the child of the element that
    carries [fullscreenReaderRef]. *)
Definition fullscreenContent (s : State) : Node :=
  if isMarkdown s then
    Element "div" None
      "prose dark:prose-invert prose-lg md:prose-xl lg:prose-2xl max-w-none"
      [and_then (displayedText s) (ReactMarkdown (displayedText s));
       and_then (currentLine s)
         (Element "mark" (Some "fullscreenCurrentLineRef"%string)
            "block mt-4 font-bold"
            [ReactMarkdown (currentLine s)])]
  else
    Element "div" None ""
      [Element "div" None "whitespace-pre-line"
         [StringChild (displayedText s)];
       and_then (currentLine s)
         (Element "mark" (Some "fullscreenCurrentLineRef"%string)
            "block mt-4 font-bold"
            [StringChild (currentLine s)])].

(** [disabled={!inputText.trim()}] on the Process button. *)
Definition processDisabled (s : State) : bool :=
  negb (truthy (trim (inputText s))).

(** [lines.length > 0], which chooses between the inline reader and the
    fallback with the Go to Input button. *)
Definition readerHasContent (s : State) : bool :=
  0 <? length (lines s).

(** [isFullscreen && lines.length > 0], which shows the fullscreen reader. *)
Definition fullscreenShown (s : State) : bool :=
  isFullscreen s && (0 <? length (lines s)).

(** ** Events the host delivers, and what each one runs *)

Inductive Event :=
| TextareaChange (value : jsstring)
| ProcessClick
| ReaderKeyDown (e : KeyboardEvent)
| DocumentKeyDown (e : KeyboardEvent)
| ResetClick
| FullscreenClick
| TabsValueChange (value : jsstring)
| RTLSwitch (checked : bool)
| MarkdownSwitch (checked : bool)
| FocusModeSwitch (checked : bool).

Definition dispatch (ev : Event) (s : State) : option State :=
  match ev with
  | TextareaChange v => Some (setInputText v s)
  | ProcessClick => Some (processText s)
  | ReaderKeyDown e => handleKeyDown e s
  | DocumentKeyDown e => Some (handleDocumentKeyDown e s)
  | ResetClick => Some (resetReader s)
  | FullscreenClick => Some (toggleFullscreen s)
  | TabsValueChange v => Some (setActiveTab v s)
  | RTLSwitch b => Some (setIsRTL b s)
  | MarkdownSwitch b => Some (setIsMarkdown b s)
  | FocusModeSwitch b => Some (setIsFocusMode b s)
  end.

(** Events are handled one at a time, each on the state the previous one
    left.  Any event may come in any state: the page shows the reader surface
    and its buttons only while [lines] is not empty, so this allows more than
    the page does. *)
Fixpoint run (evs : list Event) (s : State) : option State :=
  match evs with
  | [] => Some s
  | ev :: evs' =>
      match dispatch ev s with
      | Some s' => run evs' s'
      | None => None
      end
  end.

Definition reachable (s : State) : Prop :=
  exists evs, run evs initialState = Some s.

(** The two keys bound to the reveal event, and the cancel key. *)
Definition tabKey : KeyboardEvent := mkKey (str "Tab").
Definition spaceKey : KeyboardEvent := mkKey (str " ").
Definition escapeKey : KeyboardEvent := mkKey (str "Escape").

Definition is_reveal_key (e : KeyboardEvent) : bool :=
  eqb (key e) (str "Tab") || eqb (key e) (str " ").

(** The reveal operations: Initialize, Advance and Reset. *)
Definition is_reveal_operation (ev : Event) : bool :=
  match ev with
  | ProcessClick => true
  | ReaderKeyDown e => is_reveal_key e
  | ResetClick => true
  | _ => false
  end.

(** The state invariant of the data model. *)
Definition state_invariant (s : State) : Prop :=
  0 <= currentLineIndex s <= length (lines s) /\
  displayedText s = join [LF] (firstn (currentLineIndex s) (lines s)).

(** The input of scenario A. *)
Definition scenarioA : jsstring :=
  str "Hello" ++ [LF] ++ [LF] ++ str "World  " ++ [LF] ++ str "  ".

(** ** Derived notions used in the statements *)

(** A value of the data model's type Line: not empty, already trimmed, and
    without a line break inside. *)
Definition is_line (l : jsstring) : Prop :=
  l <> [] /\ trim l = l /\ ~ In LF l.

(** The invariant that is inductive over the handlers: the data model's two
    clauses, plus what makes them stable, namely that no line is empty and
    that the highlighted line is the one at the cursor. *)
Record reveal_consistent (s : State) : Prop := mkConsistent {
  rc_lines : Forall (fun l => l <> []) (lines s);
  rc_bound : currentLineIndex s <= length (lines s);
  rc_text : displayedText s = join [LF] (firstn (currentLineIndex s) (lines s));
  rc_current : currentLine s = nth (currentLineIndex s) (lines s) []
}.

(** Whether [handleKeyDown] gets past its first line. *)
Definition listening (s : State) : bool :=
  eqb (activeTab s) (str "reader") || isFullscreen s.

(** Closed form of the Tab/Space branch of [handleKeyDown]; lemma
    [handleKeyDown_reveal_key] proves the handler computes exactly this. *)
Definition advance (s : State) : State :=
  if currentLineIndex s <? length (lines s) then
    setCurrentLine (nth (currentLineIndex s + 1) (lines s) [])
      (setCurrentLineIndex (currentLineIndex s + 1)
        (setDisplayedText
           (if truthy (displayedText s)
            then displayedText s ++ [LF] ++ currentLine s
            else currentLine s) s))
  else s.

(** The second input of scenario B. *)
Definition scenarioB : jsstring :=
  str "   " ++ [LF] ++ str "  " ++ [LF].

(** The state scenario A ends in: text entered, processed, both lines
    revealed. *)
Definition scenarioA_events : list Event :=
  [TextareaChange scenarioA; ProcessClick;
   ReaderKeyDown tabKey; ReaderKeyDown spaceKey].

Definition scenarioA_end : State :=
  match run scenarioA_events initialState with
  | Some s => s
  | None => initialState
  end.

(** A piece of text a content tree puts on screen: the text, whether it sits
    inside a [mark] element, and whether it goes through the markdown
    renderer.  An empty string child shows nothing. *)
Record Piece := mkPiece {
  highlighted : bool;
  formatted : bool;
  text : jsstring
}.

Fixpoint pieces (marked : bool) (n : Node) : list Piece :=
  match n with
  | StringChild s => if truthy s then [mkPiece marked false s] else []
  | ReactMarkdown s => [mkPiece marked true s]
  | Element tag _ _ children =>
      flat_map (pieces (marked || String.eqb tag "mark")) children
  end.

Definition not_white_space (c : code_unit) : bool := negb (is_white_space c).

(** The state a test run ends in after reading scenario A, closing the
    fullscreen reader and going back to the input tab. *)
Definition scenarioA_left : State :=
  match run (scenarioA_events ++
             [ReaderKeyDown escapeKey; TabsValueChange (str "input")])
            initialState with
  | Some s => s
  | None => initialState
  end.

(** Scenario A processed and one line revealed. *)
Definition scenarioA_mid : State :=
  match run [TextareaChange scenarioA; ProcessClick; ReaderKeyDown tabKey]
            initialState with
  | Some s => s
  | None => initialState
  end.

(** Characters with a separator after each line; the join has one fewer. *)
Definition padded_length (xs : list jsstring) : nat :=
  fold_right (fun x n => S (length x) + n) 0 xs.

(** ** Facts about the built-ins *)

Lemma eqb_eq (a b : jsstring) : eqb a b = true <-> a = b.
Proof.
  revert b; induction a as [|x a IH]; intros [|y b]; simpl;
    try (split; [discriminate | discriminate]); [tauto|].
  rewrite andb_true_iff, N.eqb_eq, IH. split.
  - intros [-> ->]. reflexivity.
  - intros H. injection H as -> ->. split; reflexivity.
Qed.

Lemma truthy_false_nil (s : jsstring) : truthy s = false <-> s = [].
Proof. destruct s; simpl; split; congruence. Qed.

Lemma truthy_true_cons (s : jsstring) : truthy s = true <-> s <> [].
Proof. destruct s; simpl; split; congruence. Qed.

Lemma length_pos_truthy (s : jsstring) : (0 <? length s) = truthy s.
Proof. destruct s; reflexivity. Qed.

Lemma or_empty_head (xs : list jsstring) : or_empty (get xs 0) = nth 0 xs [].
Proof. destruct xs as [|[|c x] xs]; reflexivity. Qed.

Lemma LF_is_white_space : is_white_space LF = true.
Proof. reflexivity. Qed.

Lemma blank_app (a b : jsstring) : blank (a ++ b) = blank a && blank b.
Proof. apply forallb_app. Qed.

Lemma blank_rev (s : jsstring) : blank (rev s) = blank s.
Proof.
  induction s as [|c s IH]; simpl; [reflexivity|].
  rewrite blank_app, IH. simpl. rewrite andb_true_r. apply andb_comm.
Qed.

Lemma trimStart_split (s : jsstring) :
  exists pre, s = pre ++ trimStart s /\ blank pre = true.
Proof.
  induction s as [|c s (pre & Hs & Hpre)]; simpl.
  - exists []. split; reflexivity.
  - destruct (is_white_space c) eqn:Hc.
    + exists (c :: pre). simpl. rewrite Hc, Hpre.
      split; [f_equal; exact Hs | reflexivity].
    + exists []. split; reflexivity.
Qed.

Lemma trimStart_head (s t : jsstring) (c : code_unit) :
  trimStart s = c :: t -> is_white_space c = false.
Proof.
  induction s as [|d s IH]; simpl; [discriminate|].
  destruct (is_white_space d) eqn:Hd; [exact IH|].
  intros H. injection H as -> _. exact Hd.
Qed.

Lemma trimStart_nil (s : jsstring) : trimStart s = [] <-> blank s = true.
Proof.
  induction s as [|c s IH]; simpl; [tauto|].
  destruct (is_white_space c); simpl; [exact IH|].
  split; discriminate.
Qed.

Lemma trimStart_fixed (s : jsstring) (c : code_unit) :
  is_white_space c = false -> trimStart (c :: s) = c :: s.
Proof. intros H. simpl. rewrite H. reflexivity. Qed.

Lemma trimEnd_fixed (s : jsstring) (c : code_unit) :
  is_white_space c = false -> trimEnd (s ++ [c]) = s ++ [c].
Proof.
  intros H. unfold trimEnd. rewrite rev_app_distr. simpl. rewrite H.
  change (c :: rev s) with (rev [c] ++ rev s).
  rewrite <- rev_app_distr. apply rev_involutive.
Qed.

Lemma trimEnd_split (s : jsstring) :
  exists post, s = trimEnd s ++ post /\ blank post = true.
Proof.
  unfold trimEnd. destruct (trimStart_split (rev s)) as (pre & Hs & Hpre).
  exists (rev pre). split.
  - rewrite <- rev_app_distr, <- Hs. symmetry. apply rev_involutive.
  - rewrite blank_rev. exact Hpre.
Qed.

Lemma trimEnd_nil (s : jsstring) : trimEnd s = [] <-> blank s = true.
Proof.
  unfold trimEnd. rewrite <- (blank_rev s), <- trimStart_nil.
  split; intros H.
  - apply (f_equal (@rev code_unit)) in H. rewrite rev_involutive in H. exact H.
  - rewrite H. reflexivity.
Qed.

(** [trim] removes a blank prefix and a blank suffix and nothing else. *)
Lemma trim_split (s : jsstring) :
  exists pre post,
    s = pre ++ trim s ++ post /\ blank pre = true /\ blank post = true.
Proof.
  unfold trim.
  destruct (trimStart_split s) as (pre & Hs & Hpre).
  destruct (trimEnd_split (trimStart s)) as (post & Ht & Hpost).
  exists pre, post. repeat split; try assumption.
  rewrite <- Ht. exact Hs.
Qed.

Lemma trim_nil (s : jsstring) : trim s = [] <-> blank s = true.
Proof.
  unfold trim. rewrite trimEnd_nil. split; intros H.
  - destruct (trimStart s) as [|c t] eqn:E.
    + apply trimStart_nil. exact E.
    + apply trimStart_head in E. simpl in H. rewrite E in H. discriminate.
  - apply trimStart_nil in H. rewrite H. reflexivity.
Qed.

(** What [trim] leaves ends in a character that is not white space. *)
Lemma trim_last (s t : jsstring) (c : code_unit) :
  trim s = t ++ [c] -> is_white_space c = false.
Proof.
  unfold trim, trimEnd. intros H.
  apply (f_equal (@rev code_unit)) in H.
  rewrite rev_involutive, rev_app_distr in H. simpl in H.
  exact (trimStart_head _ _ _ H).
Qed.

(** What [trim] leaves starts with a character that is not white space. *)
Lemma trim_head (s t : jsstring) (c : code_unit) :
  trim s = c :: t -> is_white_space c = false.
Proof.
  intros H. unfold trim in H.
  destruct (trimEnd_split (trimStart s)) as (post & Ht & _).
  rewrite H in Ht. simpl in Ht. exact (trimStart_head _ _ _ Ht).
Qed.

Lemma trim_not_blank (s : jsstring) : trim s <> [] -> blank (trim s) = false.
Proof.
  destruct (trim s) as [|c t] eqn:E; [congruence|].
  intros _. simpl. rewrite (trim_head _ _ _ E). reflexivity.
Qed.

Lemma blank_false_witness (s : jsstring) :
  blank s = false <-> exists c, In c s /\ is_white_space c = false.
Proof.
  unfold blank. split.
  - intros H. induction s as [|c s IH]; simpl in H; [discriminate|].
    destruct (is_white_space c) eqn:Hc.
    + destruct (IH H) as (d & Hd & Hw). exists d. split; [right|]; assumption.
    + exists c. split; [left; reflexivity | exact Hc].
  - intros (c & Hin & Hc).
    destruct (forallb is_white_space s) eqn:E; [|reflexivity].
    rewrite forallb_forall in E. rewrite (E _ Hin) in Hc. discriminate.
Qed.

Lemma split_not_nil (sep : code_unit) (s : jsstring) : split sep s <> [].
Proof.
  destruct s as [|c s]; simpl; [discriminate|].
  destruct (N.eqb c sep); [discriminate|].
  destruct (split sep s); discriminate.
Qed.

(** Joining the pieces with the separator gives the string back. *)
Lemma join_split (sep : code_unit) (s : jsstring) :
  join [sep] (split sep s) = s.
Proof.
  induction s as [|c s IH]; simpl; [reflexivity|].
  destruct (N.eqb c sep) eqn:Hc.
  - apply N.eqb_eq in Hc. subst c.
    destruct (split sep s) as [|seg rest] eqn:E.
    + exfalso. exact (split_not_nil _ _ E).
    + simpl in *. rewrite IH. reflexivity.
  - destruct (split sep s) as [|seg rest] eqn:E.
    + exfalso. exact (split_not_nil _ _ E).
    + simpl in *. destruct rest; simpl; rewrite <- IH; reflexivity.
Qed.

(** No piece holds the separator. *)
Lemma split_no_sep (sep : code_unit) (s seg : jsstring) :
  In seg (split sep s) -> ~ In sep seg.
Proof.
  revert seg. induction s as [|c s IH]; simpl; intros seg H.
  - destruct H as [<- | []]. intros [].
  - destruct (N.eqb c sep) eqn:Hc.
    + destruct H as [<- | H]; [intros [] | exact (IH _ H)].
    + apply N.eqb_neq in Hc.
      destruct (split sep s) as [|seg0 rest] eqn:E.
      * destruct H as [<- | []]. intros [Heq | []]. congruence.
      * destruct H as [<- | H].
        -- intros [Heq | Hin]; [congruence|].
           exact (IH seg0 (or_introl eq_refl) Hin).
        -- exact (IH seg (or_intror H)).
Qed.

(** Every character of a piece is a character of the string. *)
Lemma split_incl (sep : code_unit) (s seg : jsstring) (c : code_unit) :
  In seg (split sep s) -> In c seg -> In c s.
Proof.
  revert seg. induction s as [|d s IH]; simpl; intros seg H Hc.
  - destruct H as [<- | []]. exact Hc.
  - destruct (N.eqb d sep).
    + destruct H as [<- | H]; [destruct Hc | right; exact (IH _ H Hc)].
    + destruct (split sep s) as [|seg0 rest] eqn:E.
      * destruct H as [<- | []]. destruct Hc as [-> | []]. left; reflexivity.
      * destruct H as [<- | H].
        -- destruct Hc as [-> | Hc]; [left; reflexivity|].
           right. exact (IH seg0 (or_introl eq_refl) Hc).
        -- right. exact (IH seg (or_intror H) Hc).
Qed.

(** Every character of the string other than the separator is in a piece. *)
Lemma split_covers (sep : code_unit) (s : jsstring) (c : code_unit) :
  In c s -> c <> sep -> exists seg, In seg (split sep s) /\ In c seg.
Proof.
  induction s as [|d s IH]; simpl; intros Hin Hne; [destruct Hin|].
  destruct (N.eqb d sep) eqn:Hd.
  - apply N.eqb_eq in Hd. destruct Hin as [-> | Hin]; [congruence|].
    destruct (IH Hin Hne) as (seg & Hs & Hc). exists seg. split; [right|]; assumption.
  - destruct (split sep s) as [|seg0 rest] eqn:E.
    + exfalso. exact (split_not_nil _ _ E).
    + destruct Hin as [-> | Hin].
      * exists (c :: seg0). split; left; reflexivity.
      * destruct (IH Hin Hne) as (seg & [<- | Hs] & Hc).
        -- exists (d :: seg0). split; [left; reflexivity | right; exact Hc].
        -- exists seg. split; [right|]; assumption.
Qed.

(** A string without the separator is its own single piece. *)
Lemma split_without_sep (sep : code_unit) (s : jsstring) :
  ~ In sep s -> split sep s = [s].
Proof.
  induction s as [|c s IH]; simpl; intros H; [reflexivity|].
  destruct (N.eqb c sep) eqn:Hc.
  - apply N.eqb_eq in Hc. exfalso. apply H. left. exact Hc.
  - rewrite IH; [reflexivity|]. intros Hin. apply H. right. exact Hin.
Qed.

Lemma split_app_sep (sep : code_unit) (a b : jsstring) :
  ~ In sep a -> split sep (a ++ sep :: b) = a :: split sep b.
Proof.
  induction a as [|c a IH]; simpl; intros H.
  - rewrite N.eqb_refl. reflexivity.
  - destruct (N.eqb c sep) eqn:Hc.
    + apply N.eqb_eq in Hc. exfalso. apply H. left. exact Hc.
    + rewrite IH; [reflexivity|]. intros Hin. apply H. right. exact Hin.
Qed.

(** Splitting undoes joining pieces that hold no separator. *)
Lemma split_join (sep : code_unit) (xs : list jsstring) :
  xs <> [] -> Forall (fun x => ~ In sep x) xs ->
  split sep (join [sep] xs) = xs.
Proof.
  induction xs as [|x xs IH]; intros Hne Hall; [congruence|].
  inversion Hall as [|? ? Hx Hxs]; subst.
  destruct xs as [|y xs].
  - simpl. apply split_without_sep. exact Hx.
  - change (join [sep] (x :: y :: xs)) with (x ++ sep :: join [sep] (y :: xs)).
    rewrite split_app_sep by exact Hx.
    rewrite IH; [reflexivity | discriminate | exact Hxs].
Qed.

Lemma join_snoc (sep : jsstring) (xs : list jsstring) (x : jsstring) :
  join sep (xs ++ [x]) =
  match xs with
  | [] => x
  | _ :: _ => join sep xs ++ sep ++ x
  end.
Proof.
  induction xs as [|y xs IH]; [reflexivity|].
  destruct xs as [|z xs]; [reflexivity|].
  change (join sep ((y :: z :: xs) ++ [x]))
    with (y ++ sep ++ join sep ((z :: xs) ++ [x])).
  rewrite IH.
  change (join sep (y :: z :: xs)) with (y ++ sep ++ join sep (z :: xs)).
  rewrite <- !app_assoc. reflexivity.
Qed.

Lemma join_nil (sep : jsstring) (xs : list jsstring) :
  Forall (fun x => x <> []) xs -> join sep xs = [] -> xs = [].
Proof.
  intros Hall H. destruct xs as [|x xs]; [reflexivity|].
  inversion Hall as [|? ? Hx _]; subst. exfalso.
  destruct xs; simpl in H; [congruence|].
  apply app_eq_nil in H. destruct H. congruence.
Qed.

(** ** Facts about the tokenizer *)

Lemma tokenize_In (raw l : jsstring) :
  In l (tokenize raw) <->
  l <> [] /\ exists seg, In seg (split LF raw) /\ trim seg = l.
Proof.
  unfold tokenize. rewrite filter_In, in_map_iff, length_pos_truthy,
    truthy_true_cons.
  split.
  - intros [(seg & Ht & Hs) Hne]. split; [exact Hne|]. exists seg. tauto.
  - intros [Hne (seg & Hs & Ht)]. split; [|exact Hne]. exists seg. tauto.
Qed.

Lemma tokenize_cons_segment (seg : jsstring) (segs : list jsstring) :
  filter (fun line => 0 <? length line) (map (fun line => trim line) (seg :: segs))
  = emit seg (filter (fun line => 0 <? length line)
                     (map (fun line => trim line) segs)).
Proof.
  unfold emit. simpl. destruct (trim seg); reflexivity.
Qed.

(** The scanner with an open segment [cur] agrees with the pipeline on the
    pieces of the rest, the first piece being prefixed by the open segment. *)
Lemma tokenize_scan_pipeline (raw cur : jsstring) :
  tokenize_scan cur raw =
  match split LF raw with
  | seg :: rest =>
      emit (rev cur ++ seg)
           (filter (fun line => 0 <? length line)
                   (map (fun line => trim line) rest))
  | [] => []
  end.
Proof.
  revert cur. induction raw as [|c raw IH]; intros cur; simpl.
  - rewrite app_nil_r. reflexivity.
  - destruct (N.eqb c LF) eqn:Hc.
    + rewrite app_nil_r. f_equal. rewrite IH.
      destruct (split LF raw) as [|seg rest] eqn:E.
      * exfalso. exact (split_not_nil _ _ E).
      * rewrite tokenize_cons_segment. reflexivity.
    + rewrite IH. destruct (split LF raw) as [|seg rest] eqn:E.
      * exfalso. exact (split_not_nil _ _ E).
      * simpl. rewrite <- app_assoc. reflexivity.
Qed.

(** Blank raw text has blank pieces only, so nothing survives the filter. *)
Lemma tokenize_blank (raw : jsstring) : blank raw = true -> tokenize raw = [].
Proof.
  intros Hb. destruct (tokenize raw) as [|l ls] eqn:E; [reflexivity|].
  exfalso.
  assert (Hin : In l (tokenize raw)) by (rewrite E; left; reflexivity).
  apply tokenize_In in Hin. destruct Hin as [Hne (seg & Hs & Ht)].
  apply Hne. rewrite <- Ht. apply trim_nil.
  unfold blank in *. rewrite forallb_forall in *.
  intros c Hc. apply Hb. exact (split_incl _ _ _ _ Hs Hc).
Qed.

(** Raw text with a character that is not white space gives some line. *)
Lemma tokenize_not_blank (raw : jsstring) :
  blank raw = false -> tokenize raw <> [].
Proof.
  intros Hb. apply blank_false_witness in Hb. destruct Hb as (c & Hin & Hc).
  assert (Hne : c <> LF) by (intros ->; rewrite LF_is_white_space in Hc; discriminate).
  destruct (split_covers LF raw c Hin Hne) as (seg & Hs & Hcs).
  assert (Hl : In (trim seg) (tokenize raw)).
  { apply tokenize_In. split; [|exists seg; tauto].
    intros Ht. apply trim_nil in Ht.
    assert (Hf : blank seg = false)
      by (apply blank_false_witness; exists c; tauto).
    congruence. }
  intros E. rewrite E in Hl. exact Hl.
Qed.

Lemma tokenize_lines (raw : jsstring) : Forall is_line (tokenize raw).
Proof.
  apply Forall_forall. intros l Hl. apply tokenize_In in Hl.
  destruct Hl as [Hne (seg & Hs & Ht)]. repeat split; [exact Hne| |].
  - subst l. destruct (trim seg) as [|c t] eqn:E; [congruence|].
    pose proof (trim_head _ _ _ E) as Hc.
    destruct (@exists_last _ (c :: t)) as (t' & d & Ed); [discriminate|].
    assert (Hd : is_white_space d = false).
    { rewrite Ed in E. exact (trim_last _ _ _ E). }
    unfold trim. rewrite (trimStart_fixed t c Hc).
    rewrite Ed. apply trimEnd_fixed. exact Hd.
  - intros Hin. destruct (trim_split seg) as (pre & post & Hseg & _ & _).
    apply (split_no_sep _ _ _ Hs). rewrite Hseg, Ht.
    apply in_or_app. right. apply in_or_app. left. exact Hin.
Qed.

Lemma tokenize_nonempty_lines (raw : jsstring) :
  Forall (fun l => l <> []) (tokenize raw).
Proof.
  eapply Forall_impl; [|apply tokenize_lines]. intros l (H & _). exact H.
Qed.

(** Every sequence of Line values is the tokenizer's output on its join:
    order is kept and equal lines are kept apart. *)
Lemma tokenize_join (ls : list jsstring) :
  Forall is_line ls -> tokenize (join [LF] ls) = ls.
Proof.
  intros Hall. destruct ls as [|l0 ls0]; [reflexivity|].
  unfold tokenize. rewrite split_join.
  - induction Hall as [|l ls (Hne & Ht & _) _ IH]; [reflexivity|].
    rewrite tokenize_cons_segment, IH. unfold emit. rewrite Ht.
    destruct l; [congruence | reflexivity].
  - discriminate.
  - eapply Forall_impl; [|exact Hall]. intros l (_ & _ & H). exact H.
Qed.

(** ** Facts about the reveal controller *)

Lemma firstn_succ (ls : list jsstring) (n : nat) :
  n < length ls -> firstn (S n) ls = firstn n ls ++ [nth n ls []].
Proof.
  revert n. induction ls as [|l ls IH]; intros n H; simpl in H; [lia|].
  destruct n as [|n]; [reflexivity|].
  change (firstn (S (S n)) (l :: ls)) with (l :: firstn (S n) ls).
  rewrite IH by lia. reflexivity.
Qed.

Lemma firstn_nonempty (ls : list jsstring) (n : nat) :
  Forall (fun l => l <> []) ls -> Forall (fun l => l <> []) (firstn n ls).
Proof.
  intros H. revert n. induction H as [|l ls Hl _ IH]; intros [|n]; simpl;
    constructor; [exact Hl | apply IH].
Qed.

(** Appending the line at the cursor, with a separator exactly when some
    text is already shown, extends the join by one line. *)
Lemma advance_text (ls : list jsstring) (n : nat) :
  Forall (fun l => l <> []) ls -> n < length ls ->
  (if truthy (join [LF] (firstn n ls))
   then join [LF] (firstn n ls) ++ [LF] ++ nth n ls []
   else nth n ls [])
  = join [LF] (firstn (n + 1) ls).
Proof.
  intros Hall Hn. rewrite Nat.add_1_r, firstn_succ by exact Hn.
  rewrite join_snoc.
  destruct (firstn n ls) as [|y ys] eqn:E; [reflexivity|].
  destruct (join [LF] (y :: ys)) eqn:J; [|reflexivity].
  apply join_nil in J; [discriminate|].
  rewrite <- E. apply firstn_nonempty. exact Hall.
Qed.

Lemma handleKeyDown_not_listening (e : KeyboardEvent) (s : State) :
  listening s = false -> handleKeyDown e s = Some s.
Proof.
  unfold listening, handleKeyDown. intros H.
  apply orb_false_iff in H as [-> ->]. reflexivity.
Qed.

Lemma handleKeyDown_reveal_key (e : KeyboardEvent) (s : State) :
  listening s = true -> is_reveal_key e = true ->
  handleKeyDown e s = Some (advance s).
Proof.
  unfold listening, is_reveal_key, handleKeyDown, advance. intros Hl Hk.
  replace (negb (eqb (activeTab s) (str "reader")) && negb (isFullscreen s))
    with false
    by (destruct (eqb (activeTab s) (str "reader")), (isFullscreen s);
        simpl in *; congruence).
  rewrite Hk.
  destruct (currentLineIndex s <? length (lines s)) eqn:Hi; [|reflexivity].
  destruct (currentLineIndex s + 1 <? length (lines s)) eqn:Hn.
  - apply Nat.ltb_lt in Hn. unfold get.
    destruct (nth_error (lines s) (currentLineIndex s + 1)) as [line|] eqn:E.
    + rewrite (@nth_error_nth jsstring _ _ _ [] E).
      destruct (truthy (displayedText s)); reflexivity.
    + apply nth_error_None in E. lia.
  - apply Nat.ltb_ge in Hn. rewrite (@nth_overflow jsstring _ _ [] Hn).
    destruct (truthy (displayedText s)); reflexivity.
Qed.

Lemma handleKeyDown_escape (e : KeyboardEvent) (s : State) :
  listening s = true -> is_reveal_key e = false ->
  eqb (key e) (str "Escape") = true ->
  handleKeyDown e s = Some (setIsFullscreen false s).
Proof.
  unfold listening, is_reveal_key, handleKeyDown. intros Hl Hk He.
  replace (negb (eqb (activeTab s) (str "reader")) && negb (isFullscreen s))
    with false
    by (destruct (eqb (activeTab s) (str "reader")), (isFullscreen s);
        simpl in *; congruence).
  rewrite Hk, He. reflexivity.
Qed.

Lemma handleKeyDown_other_key (e : KeyboardEvent) (s : State) :
  is_reveal_key e = false -> eqb (key e) (str "Escape") = false ->
  handleKeyDown e s = Some s.
Proof.
  unfold is_reveal_key, handleKeyDown. intros Hk He. rewrite Hk, He.
  destruct (negb (eqb (activeTab s) (str "reader")) && negb (isFullscreen s));
    reflexivity.
Qed.

(** The handler never stores the result of a read outside [lines]. *)
Lemma handleKeyDown_cases (e : KeyboardEvent) (s : State) :
  handleKeyDown e s = Some s \/
  handleKeyDown e s = Some (advance s) \/
  handleKeyDown e s = Some (setIsFullscreen false s).
Proof.
  destruct (listening s) eqn:Hl.
  - destruct (is_reveal_key e) eqn:Hk.
    + right. left. apply handleKeyDown_reveal_key; assumption.
    + destruct (eqb (key e) (str "Escape")) eqn:He.
      * right. right. apply handleKeyDown_escape; assumption.
      * left. apply handleKeyDown_other_key; assumption.
  - left. apply handleKeyDown_not_listening. exact Hl.
Qed.

Lemma handleKeyDown_total (e : KeyboardEvent) (s : State) :
  exists s', handleKeyDown e s = Some s'.
Proof.
  destruct (handleKeyDown_cases e s) as [H | [H | H]]; eauto.
Qed.

Lemma advance_past_end (s : State) :
  length (lines s) <= currentLineIndex s -> advance s = s.
Proof.
  intros H. unfold advance. apply Nat.ltb_ge in H. rewrite H. reflexivity.
Qed.

Lemma advance_frame (s : State) :
  lines (advance s) = lines s /\
  inputText (advance s) = inputText s /\
  activeTab (advance s) = activeTab s /\
  isFullscreen (advance s) = isFullscreen s.
Proof.
  unfold advance. destruct (currentLineIndex s <? length (lines s));
    repeat split; reflexivity.
Qed.

Lemma advance_index (s : State) :
  currentLineIndex s < length (lines s) ->
  currentLineIndex (advance s) = currentLineIndex s + 1.
Proof.
  intros H. unfold advance. apply Nat.ltb_lt in H. rewrite H. reflexivity.
Qed.

Lemma advance_consistent (s : State) :
  reveal_consistent s -> reveal_consistent (advance s).
Proof.
  intros [Hl Hb Ht Hc]. unfold advance.
  destruct (currentLineIndex s <? length (lines s)) eqn:Hi;
    [|constructor; assumption].
  apply Nat.ltb_lt in Hi. constructor; simpl.
  - exact Hl.
  - lia.
  - rewrite Ht, Hc. apply advance_text; assumption.
  - reflexivity.
Qed.

Lemma initialState_consistent : reveal_consistent initialState.
Proof. constructor; simpl; [constructor | lia | reflexivity | reflexivity]. Qed.

Lemma processText_blank (s : State) :
  blank (inputText s) = true -> processText s = s.
Proof.
  intros H. unfold processText. apply trim_nil in H. rewrite H. reflexivity.
Qed.

Lemma processText_not_blank (s : State) :
  blank (inputText s) = false ->
  processText s =
  mkState (inputText s) [] (nth 0 (tokenize (inputText s)) [])
          (tokenize (inputText s)) 0 (str "reader") (isRTL s) (isMarkdown s)
          true (isFocusMode s).
Proof.
  intros H. unfold processText.
  destruct (trim (inputText s)) eqn:E.
  - apply trim_nil in E. congruence.
  - cbn [truthy negb]. rewrite or_empty_head. reflexivity.
Qed.

Lemma processText_consistent (s : State) :
  reveal_consistent s -> reveal_consistent (processText s).
Proof.
  intros Hs. destruct (blank (inputText s)) eqn:Hb.
  - rewrite processText_blank by exact Hb. exact Hs.
  - rewrite processText_not_blank by exact Hb. constructor; simpl.
    + apply tokenize_nonempty_lines.
    + lia.
    + reflexivity.
    + reflexivity.
Qed.

Lemma resetReader_consistent (s : State) :
  reveal_consistent s -> reveal_consistent (resetReader s).
Proof.
  intros [Hl Hb Ht Hc]. unfold resetReader. constructor; simpl.
  - exact Hl.
  - lia.
  - reflexivity.
  - apply or_empty_head.
Qed.

Lemma handleKeyDown_consistent (e : KeyboardEvent) (s s' : State) :
  reveal_consistent s -> handleKeyDown e s = Some s' -> reveal_consistent s'.
Proof.
  intros Hs H.
  destruct (handleKeyDown_cases e s) as [E | [E | E]];
    rewrite E in H; injection H as <-.
  - exact Hs.
  - apply advance_consistent. exact Hs.
  - destruct Hs. constructor; assumption.
Qed.

Lemma dispatch_consistent (ev : Event) (s s' : State) :
  reveal_consistent s -> dispatch ev s = Some s' -> reveal_consistent s'.
Proof.
  intros Hs H. destruct ev; simpl in H;
    try (injection H as <-; destruct Hs; constructor; assumption).
  - injection H as <-. apply processText_consistent. exact Hs.
  - eapply handleKeyDown_consistent; eassumption.
  - injection H as <-. unfold handleDocumentKeyDown.
    destruct (eqb (key e) (str "Escape") && isFullscreen s);
      destruct Hs; constructor; assumption.
  - injection H as <-. apply resetReader_consistent. exact Hs.
Qed.

Lemma run_consistent (evs : list Event) (s s' : State) :
  reveal_consistent s -> run evs s = Some s' -> reveal_consistent s'.
Proof.
  revert s. induction evs as [|ev evs IH]; simpl; intros s Hs H.
  - injection H as <-. exact Hs.
  - destruct (dispatch ev s) as [s1|] eqn:E; [|discriminate].
    exact (IH s1 (dispatch_consistent ev s s1 Hs E) H).
Qed.

Lemma reachable_consistent (s : State) : reachable s -> reveal_consistent s.
Proof.
  intros (evs & H).
  exact (run_consistent evs initialState s initialState_consistent H).
Qed.

(** No sequence of events gets stuck on a read outside [lines]. *)
Lemma run_total (evs : list Event) (s : State) : exists s', run evs s = Some s'.
Proof.
  revert s. induction evs as [|ev evs IH]; simpl; intros s; [eauto|].
  assert (H : exists s1, dispatch ev s = Some s1).
  { destruct ev; simpl; eauto. apply handleKeyDown_total. }
  destruct H as (s1 & ->). apply IH.
Qed.

Lemma state_invariant_of_consistent (s : State) :
  reveal_consistent s -> state_invariant s.
Proof.
  intros [_ Hb Ht _]. split; [lia | exact Ht].
Qed.

(** Events other than the three reveal operations write none of the reveal
    cells. *)
Lemma dispatch_frame (ev : Event) (s s' : State) :
  dispatch ev s = Some s' -> is_reveal_operation ev = false ->
  displayedText s' = displayedText s /\ lines s' = lines s /\
  currentLineIndex s' = currentLineIndex s /\ currentLine s' = currentLine s.
Proof.
  intros H Hop. destruct ev; simpl in H, Hop; try discriminate;
    try (injection H as <-; repeat split; reflexivity).
  - destruct (eqb (key e) (str "Escape")) eqn:He.
    + destruct (listening s) eqn:Hl.
      * rewrite (handleKeyDown_escape e s Hl Hop He) in H.
        injection H as <-. repeat split; reflexivity.
      * rewrite (handleKeyDown_not_listening e s Hl) in H.
        injection H as <-. repeat split; reflexivity.
    + rewrite (handleKeyDown_other_key e s Hop He) in H.
      injection H as <-. repeat split; reflexivity.
  - injection H as <-. unfold handleDocumentKeyDown.
    destruct (eqb (key e) (str "Escape") && isFullscreen s);
      repeat split; reflexivity.
Qed.

(** Reveal keys pressed on a listening surface are that many [advance]s. *)
Lemma run_reveal_keys (ks : list KeyboardEvent) (s : State) :
  listening s = true ->
  Forall (fun e => is_reveal_key e = true) ks ->
  run (map ReaderKeyDown ks) s = Some (Nat.iter (length ks) advance s).
Proof.
  intros Hl Hks. revert s Hl.
  induction Hks as [|e ks He _ IH]; intros s Hl; [reflexivity|].
  simpl map. simpl run. rewrite (handleKeyDown_reveal_key e s Hl He).
  rewrite IH.
  - simpl length. rewrite Nat.iter_succ_r. reflexivity.
  - unfold listening in *.
    destruct (advance_frame s) as (_ & _ & -> & ->). exact Hl.
Qed.

(** [k] advances from a consistent state move the cursor by [k], as long as
    lines remain. *)
Lemma iter_advance (k : nat) (s : State) :
  reveal_consistent s ->
  currentLineIndex s + k <= length (lines s) ->
  reveal_consistent (Nat.iter k advance s) /\
  lines (Nat.iter k advance s) = lines s /\
  currentLineIndex (Nat.iter k advance s) = currentLineIndex s + k.
Proof.
  intros Hs. induction k as [|k IH]; intros Hk; simpl.
  - split; [exact Hs | split; [reflexivity | lia]].
  - destruct IH as (Hc & Hl & Hi); [lia|].
    destruct (advance_frame (Nat.iter k advance s)) as (Hl' & _).
    split; [|split].
    + apply advance_consistent. exact Hc.
    + congruence.
    + rewrite advance_index; [lia|]. rewrite Hl, Hi. lia.
Qed.

(** A key event changes neither the lines nor the input text. *)
Lemma handleKeyDown_lines (e : KeyboardEvent) (s s' : State) :
  handleKeyDown e s = Some s' -> lines s' = lines s.
Proof.
  intros H. destruct (handleKeyDown_cases e s) as [E | [E | E]];
    rewrite E in H; injection H as <-; try reflexivity.
  apply advance_frame.
Qed.

Lemma run_keys_lines (ks : list KeyboardEvent) (s s' : State) :
  run (map ReaderKeyDown ks) s = Some s' -> lines s' = lines s.
Proof.
  revert s. induction ks as [|e ks IH]; simpl; intros s H.
  - injection H as <-. reflexivity.
  - destruct (handleKeyDown e s) as [s1|] eqn:E; [|discriminate].
    rewrite (IH s1 H). exact (handleKeyDown_lines e s s1 E).
Qed.

(** With the reader tab active, toggling fullscreen between two advances
    changes nothing about the next advance. *)
Lemma toggle_then_advance (s : State) :
  advance (toggleFullscreen s) = toggleFullscreen (advance s).
Proof.
  unfold advance, toggleFullscreen. simpl.
  destruct (currentLineIndex s <? length (lines s)); reflexivity.
Qed.

(** ** The claims *)

(** C1. In every reachable state the invariant holds
    ([0 <= position <= length lines], and [displayedText] is the join with a
    line break of the first [position] lines, the empty string at position
    0), and every event handled there, among them Initialize ([processText]),
    Advance (Tab or Space in [handleKeyDown]) and Reset ([resetReader]),
    returns a state where it holds again; an event that is none of these
    three operations leaves [displayedText] as it was. *)
Theorem reveal_operations_preserve_invariant (s : State) (ev : Event) :
  reachable s ->
  state_invariant s /\
  exists s', dispatch ev s = Some s' /\
             state_invariant s' /\
             (is_reveal_operation ev = false ->
              displayedText s' = displayedText s).
Proof.
  intros Hr. pose proof (reachable_consistent s Hr) as Hc.
  split; [exact (state_invariant_of_consistent s Hc)|].
  destruct (run_total [ev] s) as (s' & H). simpl in H.
  destruct (dispatch ev s) as [s1|] eqn:E; [|discriminate].
  injection H as <-. exists s1. split; [reflexivity|]. split.
  - apply state_invariant_of_consistent.
    exact (dispatch_consistent ev s s1 Hc E).
  - intros Hop. exact (proj1 (dispatch_frame ev s s1 E Hop)).
Qed.

Lemma reveal_operations_preserve_invariant_witness :
  reachable (processText (setInputText scenarioA initialState)) /\
  state_invariant (processText (setInputText scenarioA initialState)) /\
  exists s', dispatch (ReaderKeyDown tabKey)
               (processText (setInputText scenarioA initialState)) = Some s' /\
             state_invariant s' /\
             (is_reveal_operation (ReaderKeyDown tabKey) = false ->
              displayedText s' =
              displayedText (processText (setInputText scenarioA initialState))).
Proof.
  assert (Hr : reachable (processText (setInputText scenarioA initialState))).
  { exists [TextareaChange scenarioA; ProcessClick]. vm_compute. reflexivity. }
  split; [exact Hr|].
  exact (reveal_operations_preserve_invariant
           (processText (setInputText scenarioA initialState))
           (ReaderKeyDown tabKey) Hr).
Defined.

(** C2. In a reachable state whose position has reached the number of lines,
    a reveal key returns the very same state, without any read outside
    [lines]; the current line is absent (empty) there and stays so; any
    number of further reveal keys has no effect either. *)
Theorem advance_at_end_is_noop
  (s : State) (e : KeyboardEvent) (ks : list KeyboardEvent) :
  reachable s ->
  length (lines s) <= currentLineIndex s ->
  is_reveal_key e = true ->
  Forall (fun k => is_reveal_key k = true) ks ->
  handleKeyDown e s = Some s /\
  currentLine s = [] /\
  run (map ReaderKeyDown ks) s = Some s.
Proof.
  intros Hr Hend He Hks.
  assert (Hstep : forall k, is_reveal_key k = true -> handleKeyDown k s = Some s).
  { intros k Hk. destruct (listening s) eqn:Hl.
    - rewrite (handleKeyDown_reveal_key k s Hl Hk), (advance_past_end s Hend).
      reflexivity.
    - apply handleKeyDown_not_listening. exact Hl. }
  split; [exact (Hstep e He)|]. split.
  - destruct (reachable_consistent s Hr) as [_ _ _ Hc].
    rewrite Hc. apply nth_overflow. exact Hend.
  - induction Hks as [|k ks Hk _ IH]; [reflexivity|].
    simpl. rewrite (Hstep k Hk). exact IH.
Qed.

Lemma advance_at_end_is_noop_witness :
  handleKeyDown tabKey scenarioA_end = Some scenarioA_end /\
  currentLine scenarioA_end = [] /\
  run (map ReaderKeyDown [spaceKey; tabKey]) scenarioA_end = Some scenarioA_end.
Proof.
  apply advance_at_end_is_noop.
  - exists scenarioA_events. vm_compute. reflexivity.
  - vm_compute. lia.
  - reflexivity.
  - repeat constructor.
Defined.

(** C3. Whatever the raw text, no element of the tokenizer's result is empty
    or made of white space only; and when some line of the raw text (a piece
    between line breaks) is not blank, the result has at least one
    element. *)
Theorem tokenize_elements_not_blank (raw : jsstring) :
  Forall (fun l => blank l = false) (tokenize raw) /\
  ((exists seg, In seg (split LF raw) /\ blank seg = false) ->
   1 <= length (tokenize raw)).
Proof.
  split.
  - apply Forall_forall. intros l Hl. apply tokenize_In in Hl.
    destruct Hl as [Hne (seg & _ & Ht)]. subst l.
    apply trim_not_blank. exact Hne.
  - intros (seg & Hs & Hb).
    assert (Hin : In (trim seg) (tokenize raw)).
    { apply tokenize_In. split; [|exists seg; tauto].
      intros Ht. apply trim_nil in Ht. congruence. }
    destruct (tokenize raw); [destruct Hin | simpl; lia].
Qed.

Lemma tokenize_elements_not_blank_witness :
  (exists seg, In seg (split LF scenarioA) /\ blank seg = false) /\
  1 <= length (tokenize scenarioA).
Proof.
  assert (H : exists seg, In seg (split LF scenarioA) /\ blank seg = false).
  { exists (str "World  "). split; [vm_compute; tauto | reflexivity]. }
  split; [exact H|].
  exact (proj2 (tokenize_elements_not_blank scenarioA) H).
Defined.

(** C4. Scenario A, from any state of the component: the tokenizer gives
    Hello and World; after processing, the current line is Hello and nothing
    is displayed; a first reveal key displays Hello and highlights World; a
    second displays both lines joined by a line break and leaves no current
    line; a third returns the same state. *)
Theorem scenario_A_trace (s : State) :
  let s1 := processText (setInputText scenarioA s) in
  tokenize scenarioA = [str "Hello"; str "World"] /\
  lines s1 = [str "Hello"; str "World"] /\
  currentLine s1 = str "Hello" /\ displayedText s1 = [] /\
  exists s2 s3,
    handleKeyDown tabKey s1 = Some s2 /\
    displayedText s2 = str "Hello" /\ currentLine s2 = str "World" /\
    handleKeyDown spaceKey s2 = Some s3 /\
    displayedText s3 = str "Hello" ++ [LF] ++ str "World" /\
    currentLine s3 = [] /\
    handleKeyDown tabKey s3 = Some s3 /\
    handleKeyDown spaceKey s3 = Some s3.
Proof.
  destruct s as [it dt cl ls idx tab rtl md fs fm]. cbv zeta.
  split; [reflexivity|]. split; [reflexivity|].
  split; [reflexivity|]. split; [reflexivity|].
  eexists. eexists.
  split; [vm_compute; reflexivity|]. split; [reflexivity|].
  split; [reflexivity|].
  split; [vm_compute; reflexivity|]. split; [reflexivity|].
  split; [reflexivity|]. split; reflexivity.
Qed.

(** C5. After an Initialize that took place (the input was not blank), the
    line sequence is not empty; as many reveal keys as it has lines, Tab or
    Space in any mix, lead to a state that displays the join of all lines
    with line breaks and has no current line; one more reveal key returns
    that same state. *)
Theorem advance_total_times_reveals_all
  (s0 : State) (ks : list KeyboardEvent) (extra : KeyboardEvent) :
  trim (inputText s0) <> [] ->
  Forall (fun e => is_reveal_key e = true) ks ->
  length ks = length (lines (processText s0)) ->
  is_reveal_key extra = true ->
  lines (processText s0) = tokenize (inputText s0) /\
  lines (processText s0) <> [] /\
  exists s1,
    run (map ReaderKeyDown ks) (processText s0) = Some s1 /\
    displayedText s1 = join [LF] (lines (processText s0)) /\
    currentLine s1 = [] /\
    handleKeyDown extra s1 = Some s1.
Proof.
  intros Hin Hks Hlen Hextra.
  assert (Hb : blank (inputText s0) = false).
  { destruct (blank (inputText s0)) eqn:E; [|reflexivity].
    apply trim_nil in E. congruence. }
  pose proof (processText_not_blank s0 Hb) as Hp.
  set (s := processText s0) in *.
  assert (Hlines : lines s = tokenize (inputText s0)) by (rewrite Hp; reflexivity).
  assert (Hidx : currentLineIndex s = 0) by (rewrite Hp; reflexivity).
  assert (Hl : listening s = true) by (rewrite Hp; reflexivity).
  assert (Hc : reveal_consistent s).
  { rewrite Hp. constructor; simpl;
      [apply tokenize_nonempty_lines | lia | reflexivity | reflexivity]. }
  split; [exact Hlines|]. split.
  { rewrite Hlines. apply tokenize_not_blank. exact Hb. }
  exists (Nat.iter (length ks) advance s).
  destruct (iter_advance (length ks) s Hc) as ([_ _ Ht Hcur] & Hls & Hi);
    [lia|].
  rewrite Hidx in Hi. simpl in Hi. rewrite Hls, Hi in Ht, Hcur.
  split; [exact (run_reveal_keys ks s Hl Hks)|]. split; [|split].
  - rewrite Ht, Hlen. f_equal. apply firstn_all.
  - rewrite Hcur. apply nth_overflow. lia.
  - rewrite handleKeyDown_reveal_key.
    + rewrite advance_past_end; [reflexivity|]. rewrite Hls, Hi. lia.
    + unfold listening in *.
      clear - Hl. induction (length ks) as [|n IH]; [exact Hl|].
      simpl. destruct (advance_frame (Nat.iter n advance s)) as (_ & _ & -> & ->).
      exact IH.
    + exact Hextra.
Qed.

Lemma advance_total_times_reveals_all_witness :
  lines (processText (setInputText scenarioA initialState))
  = tokenize (inputText (setInputText scenarioA initialState)) /\
  lines (processText (setInputText scenarioA initialState)) <> [] /\
  exists s1,
    run (map ReaderKeyDown [tabKey; spaceKey])
        (processText (setInputText scenarioA initialState)) = Some s1 /\
    displayedText s1
    = join [LF] (lines (processText (setInputText scenarioA initialState))) /\
    currentLine s1 = [] /\
    handleKeyDown tabKey s1 = Some s1.
Proof.
  apply (advance_total_times_reveals_all
           (setInputText scenarioA initialState) [tabKey; spaceKey] tabKey).
  - vm_compute. discriminate.
  - repeat constructor.
  - reflexivity.
  - reflexivity.
Defined.

(** C6. From any state and after any key presses on the reader (reveal keys
    or others), Reset gives position 0, no displayed text, and the first line
    as current line, the empty string when there is no line; the line
    sequence after Reset is the one before the key presses, so an empty
    sequence stays empty. *)
Theorem reset_restores_start (s : State) (ks : list KeyboardEvent) :
  exists s1,
    run (map ReaderKeyDown ks) s = Some s1 /\
    currentLineIndex (resetReader s1) = 0 /\
    displayedText (resetReader s1) = [] /\
    currentLine (resetReader s1) = hd [] (lines s) /\
    lines (resetReader s1) = lines s /\
    inputText (resetReader s1) = inputText s1.
Proof.
  destruct (run_total (map ReaderKeyDown ks) s) as (s1 & H).
  exists s1. split; [exact H|].
  pose proof (run_keys_lines ks s s1 H) as Hl.
  split; [reflexivity|]. split; [reflexivity|]. split; [|split].
  - change (or_empty (get (lines s1) 0) = hd [] (lines s)).
    rewrite or_empty_head, Hl. destruct (lines s); reflexivity.
  - exact Hl.
  - reflexivity.
Qed.

(** C7. When the input text is empty or white space only, [processText]
    returns the state it was given, every cell untouched (so neither the
    reader tab nor fullscreen is entered), and the tokenizer gives the empty
    sequence on that text. *)
Theorem process_blank_input_is_noop (s : State) :
  blank (inputText s) = true ->
  processText s = s /\
  dispatch ProcessClick s = Some s /\
  tokenize (inputText s) = [].
Proof.
  intros Hb. pose proof (processText_blank s Hb) as Hp.
  split; [exact Hp|]. split.
  - simpl. rewrite Hp. reflexivity.
  - apply tokenize_blank. exact Hb.
Qed.

Lemma process_blank_input_is_noop_witness :
  blank (inputText (setInputText scenarioB initialState)) = true /\
  processText (setInputText scenarioB initialState)
  = setInputText scenarioB initialState /\
  dispatch ProcessClick (setInputText scenarioB initialState)
  = Some (setInputText scenarioB initialState) /\
  tokenize (inputText (setInputText scenarioB initialState)) = [].
Proof.
  split; [reflexivity|].
  apply (process_blank_input_is_noop (setInputText scenarioB initialState)).
  reflexivity.
Defined.

(** C8. In any state, [toggleFullscreen], the Escape key in [handleKeyDown]
    and the Escape key in the document listener leave the position, the
    displayed text, the current line and the lines as they are;
    [toggleFullscreen] does flip the flag. *)
Theorem fullscreen_toggle_keeps_progress (s : State) :
  (isFullscreen (toggleFullscreen s) = negb (isFullscreen s) /\
   currentLineIndex (toggleFullscreen s) = currentLineIndex s /\
   displayedText (toggleFullscreen s) = displayedText s /\
   currentLine (toggleFullscreen s) = currentLine s /\
   lines (toggleFullscreen s) = lines s) /\
  (exists s', handleKeyDown escapeKey s = Some s' /\
     currentLineIndex s' = currentLineIndex s /\
     displayedText s' = displayedText s /\
     currentLine s' = currentLine s /\
     lines s' = lines s) /\
  (currentLineIndex (handleDocumentKeyDown escapeKey s) = currentLineIndex s /\
   displayedText (handleDocumentKeyDown escapeKey s) = displayedText s /\
   currentLine (handleDocumentKeyDown escapeKey s) = currentLine s /\
   lines (handleDocumentKeyDown escapeKey s) = lines s).
Proof.
  split; [repeat split|]. split.
  - destruct (handleKeyDown_total escapeKey s) as (s' & H). exists s'.
    split; [exact H|].
    destruct (dispatch_frame (ReaderKeyDown escapeKey) s s' H eq_refl)
      as (Hd & Hl & Hi & Hc).
    repeat split; assumption.
  - destruct (dispatch_frame (DocumentKeyDown escapeKey) s _ eq_refl eq_refl)
      as (Hd & Hl & Hi & Hc).
    repeat split; assumption.
Qed.

(** C9. On every raw text the pipeline of [processText] gives what the
    specification's wording gives: cut at line breaks, trim each piece, drop
    the pieces that became empty, in the order of the text; equal lines are
    all kept, as on a text with the same line twice. *)
Theorem tokenize_refines_spec (raw : jsstring) :
  tokenize raw = tokenize_spec raw /\
  tokenize (str "b" ++ [LF] ++ str " a" ++ [LF] ++ str "b")
  = [str "b"; str "a"; str "b"].
Proof.
  split; [|reflexivity].
  unfold tokenize_spec. rewrite tokenize_scan_pipeline. unfold tokenize.
  destruct (split LF raw) as [|seg rest] eqn:E.
  - exfalso. exact (split_not_nil _ _ E).
  - simpl rev. simpl app. apply tokenize_cons_segment.
Qed.

(** C10. When [processText] goes through (the input is not blank), it sets,
    besides the reveal cells, the active tab to reader and the fullscreen
    flag to true, whatever they were; the other presentation flags and the
    input text are left alone. *)
Theorem process_enters_fullscreen_reader (s : State) :
  trim (inputText s) <> [] ->
  activeTab (processText s) = str "reader" /\
  isFullscreen (processText s) = true /\
  lines (processText s) = tokenize (inputText s) /\
  currentLineIndex (processText s) = 0 /\
  displayedText (processText s) = [] /\
  currentLine (processText s) = hd [] (tokenize (inputText s)) /\
  isRTL (processText s) = isRTL s /\
  isMarkdown (processText s) = isMarkdown s /\
  isFocusMode (processText s) = isFocusMode s /\
  inputText (processText s) = inputText s.
Proof.
  intros Hin.
  assert (Hb : blank (inputText s) = false).
  { destruct (blank (inputText s)) eqn:E; [|reflexivity].
    apply trim_nil in E. congruence. }
  rewrite (processText_not_blank s Hb). simpl.
  repeat split. destruct (tokenize (inputText s)); reflexivity.
Qed.

Lemma process_enters_fullscreen_reader_witness :
  activeTab (setInputText scenarioA initialState) = str "input" /\
  isFullscreen (setInputText scenarioA initialState) = false /\
  activeTab (processText (setInputText scenarioA initialState)) = str "reader" /\
  isFullscreen (processText (setInputText scenarioA initialState)) = true.
Proof.
  split; [reflexivity|]. split; [reflexivity|].
  destruct (process_enters_fullscreen_reader
              (setInputText scenarioA initialState)) as (Ht & Hf & _).
  - vm_compute. discriminate.
  - split; [exact Ht | exact Hf].
Defined.

(** ** Further facts about the tokenizer *)

Lemma split_app (sep : code_unit) (a b : jsstring) :
  split sep (a ++ sep :: b) = split sep a ++ split sep b.
Proof.
  induction a as [|c a IH]; simpl.
  - rewrite N.eqb_refl. reflexivity.
  - destruct (N.eqb c sep); rewrite IH; [reflexivity|].
    destruct (split sep a) as [|seg rest] eqn:E; [|reflexivity].
    exfalso. exact (split_not_nil _ _ E).
Qed.

Lemma split_length (sep : code_unit) (s : jsstring) :
  length (split sep s) = S (count_occ N.eq_dec s sep).
Proof.
  induction s as [|c s IH]; simpl; [reflexivity|].
  destruct (N.eq_dec c sep) as [-> | Hne].
  - rewrite N.eqb_refl. simpl. rewrite IH. reflexivity.
  - apply N.eqb_neq in Hne. rewrite Hne.
    destruct (split sep s) as [|seg rest] eqn:E.
    + exfalso. exact (split_not_nil _ _ E).
    + simpl in *. exact IH.
Qed.

Lemma trim_length (s : jsstring) : length (trim s) <= length s.
Proof.
  destruct (trim_split s) as (pre & post & Hs & _ & _).
  rewrite Hs at 2. rewrite !length_app. lia.
Qed.

Lemma join_length (sep : code_unit) (xs : list jsstring) :
  length (join [sep] xs) = pred (padded_length xs).
Proof.
  induction xs as [|x xs IH]; [reflexivity|].
  destruct xs as [|y xs]; [simpl; lia|].
  change (join [sep] (x :: y :: xs)) with (x ++ sep :: join [sep] (y :: xs)).
  rewrite length_app.
  change (length (sep :: join [sep] (y :: xs)))
    with (S (length (join [sep] (y :: xs)))).
  rewrite IH. simpl. lia.
Qed.

Lemma padded_length_tokens (segs : list jsstring) :
  padded_length (filter (fun line => 0 <? length line)
                        (map (fun line => trim line) segs))
  <= padded_length segs.
Proof.
  induction segs as [|seg segs IH]; [reflexivity|].
  rewrite tokenize_cons_segment. unfold emit.
  pose proof (trim_length seg) as Hl.
  destruct (trim seg) as [|c t]; simpl in *; lia.
Qed.

Lemma filter_blank (s : jsstring) :
  blank s = true -> filter not_white_space s = [].
Proof.
  unfold blank, not_white_space. induction s as [|c s IH]; simpl; [reflexivity|].
  intros H. apply andb_true_iff in H as [-> Hs]. simpl. exact (IH Hs).
Qed.

Lemma filter_trim (s : jsstring) :
  filter not_white_space (trim s) = filter not_white_space s.
Proof.
  destruct (trim_split s) as (pre & post & Hs & Hpre & Hpost).
  rewrite Hs at 2. rewrite !filter_app.
  rewrite (filter_blank pre Hpre), (filter_blank post Hpost), app_nil_r.
  reflexivity.
Qed.

Lemma filter_join (xs : list jsstring) :
  filter not_white_space (join [LF] xs)
  = concat (map (filter not_white_space) xs).
Proof.
  induction xs as [|x xs IH]; [reflexivity|].
  destruct xs as [|y xs]; [simpl; rewrite app_nil_r; reflexivity|].
  change (join [LF] (x :: y :: xs)) with (x ++ LF :: join [LF] (y :: xs)).
  rewrite filter_app.
  change (filter not_white_space (LF :: join [LF] (y :: xs)))
    with (filter not_white_space (join [LF] (y :: xs))).
  rewrite IH. reflexivity.
Qed.

Lemma filter_tokens (segs : list jsstring) :
  concat (map (filter not_white_space)
              (filter (fun line => 0 <? length line)
                      (map (fun line => trim line) segs)))
  = concat (map (filter not_white_space) segs).
Proof.
  induction segs as [|seg segs IH]; [reflexivity|].
  rewrite tokenize_cons_segment. unfold emit.
  simpl map at 3. simpl concat at 2. rewrite <- (filter_trim seg), <- IH.
  destruct (trim seg) as [|c t]; reflexivity.
Qed.

Lemma Forall_firstn_lines (P : jsstring -> Prop) (ls : list jsstring) (n : nat) :
  Forall P ls -> Forall P (firstn n ls).
Proof.
  intros H. revert n. induction H as [|l ls Hl _ IH]; intros [|n]; simpl;
    constructor; [exact Hl | apply IH].
Qed.

(** ** Further properties of the tokenizer *)

(** X1. Every element the tokenizer returns is a Line: it is not empty,
    trimming it again changes nothing (so it neither starts nor ends with
    white space), and it holds no line break. *)
Theorem tokenize_yields_lines (raw : jsstring) :
  Forall (fun l => l <> [] /\ trim l = l /\ ~ In LF l) (tokenize raw).
Proof. exact (tokenize_lines raw). Qed.

(** X2. Joining Line values with line breaks and tokenizing the result gives
    the same values back, in the same order and with repetitions kept. *)
Theorem tokenize_join_roundtrip (ls : list jsstring) :
  Forall is_line ls -> tokenize (join [LF] ls) = ls.
Proof. exact (tokenize_join ls). Qed.

Lemma tokenize_join_roundtrip_witness :
  Forall is_line [str "b"; str "a c"; str "b"] /\
  tokenize (join [LF] [str "b"; str "a c"; str "b"])
  = [str "b"; str "a c"; str "b"].
Proof.
  assert (H : Forall is_line [str "b"; str "a c"; str "b"]).
  { repeat constructor; try discriminate;
      vm_compute; intros H; repeat (destruct H as [H | H]; [discriminate|]);
      exact H. }
  split; [exact H | exact (tokenize_join_roundtrip _ H)].
Defined.

(** X3. Tokenizing two texts put one after the other with a line break in
    between gives the lines of the first followed by the lines of the
    second. *)
Theorem tokenize_concat (a b : jsstring) :
  tokenize (a ++ [LF] ++ b) = tokenize a ++ tokenize b.
Proof.
  unfold tokenize. simpl app. rewrite split_app, map_app, filter_app.
  reflexivity.
Qed.

(** X4. The tokenizer returns at most one line more than the raw text has
    line breaks, and its lines joined with line breaks are never longer than
    the raw text. *)
Theorem tokenize_size_bounds (raw : jsstring) :
  length (tokenize raw) <= S (count_occ N.eq_dec raw LF) /\
  length (join [LF] (tokenize raw)) <= length raw.
Proof.
  split.
  - unfold tokenize. rewrite <- split_length.
    etransitivity; [apply filter_length_le|]. rewrite length_map. lia.
  - rewrite <- (join_split LF raw) at 2. rewrite !join_length.
    apply Nat.pred_le_mono. apply padded_length_tokens.
Qed.

(** X5. The tokenizer drops white space only: the characters of the raw text
    that are not white space, in order, are the characters of the lines that
    are not white space, in order. *)
Theorem tokenize_keeps_non_white_space (raw : jsstring) :
  concat (map (filter not_white_space) (tokenize raw))
  = filter not_white_space raw.
Proof.
  unfold tokenize. rewrite filter_tokens, <- filter_join, join_split.
  reflexivity.
Qed.

(** ** Further facts about the reveal controller *)

Lemma iter_advance_listening (k : nat) (s : State) :
  listening (Nat.iter k advance s) = listening s.
Proof.
  induction k as [|k IH]; [reflexivity|].
  simpl. unfold listening in *.
  destruct (advance_frame (Nat.iter k advance s)) as (_ & _ & -> & ->).
  exact IH.
Qed.

(** [k] advances from a consistent state move the cursor by [k] and stop it
    at the number of lines. *)
Lemma iter_advance_min (k : nat) (s : State) :
  reveal_consistent s ->
  reveal_consistent (Nat.iter k advance s) /\
  lines (Nat.iter k advance s) = lines s /\
  currentLineIndex (Nat.iter k advance s)
  = Nat.min (currentLineIndex s + k) (length (lines s)).
Proof.
  intros Hs. pose proof (rc_bound s Hs) as Hb.
  induction k as [|k (Hc & Hl & Hi)]; simpl.
  - split; [exact Hs | split; [reflexivity | lia]].
  - destruct (advance_frame (Nat.iter k advance s)) as (Hl' & _).
    split; [apply advance_consistent; exact Hc|].
    split; [congruence|].
    destruct (Nat.lt_ge_cases (currentLineIndex (Nat.iter k advance s))
                              (length (lines (Nat.iter k advance s))))
      as [Hlt | Hge].
    + rewrite (advance_index _ Hlt). rewrite Hl in Hlt. lia.
    + rewrite (advance_past_end _ Hge). rewrite Hl in Hge. lia.
Qed.

(** Which events replace the lines, and by what. *)
Lemma dispatch_lines_cases (ev : Event) (s s' : State) :
  dispatch ev s = Some s' ->
  lines s' = lines s \/
  (ev = ProcessClick /\ blank (inputText s) = false /\
   lines s' = tokenize (inputText s)).
Proof.
  intros H. destruct ev; simpl in H;
    try (injection H as <-; left; reflexivity).
  - injection H as <-. destruct (blank (inputText s)) eqn:Hb.
    + left. rewrite (processText_blank s Hb). reflexivity.
    + right. rewrite (processText_not_blank s Hb). repeat split.
  - left. exact (handleKeyDown_lines e s s' H).
  - injection H as <-. left. unfold handleDocumentKeyDown.
    destruct (eqb (key e) (str "Escape") && isFullscreen s); reflexivity.
Qed.

Lemma run_lines_are_lines (evs : list Event) (s s' : State) :
  Forall is_line (lines s) -> run evs s = Some s' -> Forall is_line (lines s').
Proof.
  revert s. induction evs as [|ev evs IH]; simpl; intros s Hs H.
  - injection H as <-. exact Hs.
  - destruct (dispatch ev s) as [s1|] eqn:E; [|discriminate].
    apply (IH s1); [|exact H].
    destruct (dispatch_lines_cases ev s s1 E) as [-> | (_ & _ & ->)];
      [exact Hs | apply tokenize_lines].
Qed.

Lemma reachable_lines_are_lines (s : State) :
  reachable s -> Forall is_line (lines s).
Proof.
  intros (evs & H).
  exact (run_lines_are_lines evs initialState s (Forall_nil _) H).
Qed.

(** Key presses on the reader write four cells at most. *)
Lemma handleKeyDown_frame (e : KeyboardEvent) (s s' : State) :
  handleKeyDown e s = Some s' ->
  s' = mkState (inputText s) (displayedText s') (currentLine s') (lines s)
               (currentLineIndex s') (activeTab s) (isRTL s) (isMarkdown s)
               (isFullscreen s') (isFocusMode s).
Proof.
  intros H. destruct (handleKeyDown_cases e s) as [E | [E | E]];
    rewrite E in H; injection H as <-.
  - destruct s; reflexivity.
  - unfold advance. destruct (currentLineIndex s <? length (lines s));
      destruct s; reflexivity.
  - destruct s; reflexivity.
Qed.

Lemma run_keys_frame (ks : list KeyboardEvent) (s s' : State) :
  run (map ReaderKeyDown ks) s = Some s' ->
  s' = mkState (inputText s) (displayedText s') (currentLine s') (lines s)
               (currentLineIndex s') (activeTab s) (isRTL s) (isMarkdown s)
               (isFullscreen s') (isFocusMode s).
Proof.
  revert s. induction ks as [|e ks IH]; simpl; intros s H.
  - injection H as <-. destruct s; reflexivity.
  - destruct (handleKeyDown e s) as [s1|] eqn:E; [|discriminate].
    rewrite (IH s1 H) at 1. rewrite (handleKeyDown_frame e s s1 E).
    reflexivity.
Qed.

Lemma not_blank_of_trim (raw : jsstring) : trim raw <> [] -> blank raw = false.
Proof.
  intros H. destruct (blank raw) eqn:E; [|reflexivity].
  apply trim_nil in E. congruence.
Qed.

Lemma nth_line_nonempty (ls : list jsstring) (n : nat) :
  Forall (fun l => l <> []) ls -> n < length ls -> nth n ls [] <> [].
Proof.
  intros Hall Hn. rewrite Forall_forall in Hall. apply Hall.
  apply nth_In. exact Hn.
Qed.

(** In a consistent state the current line is there exactly while lines
    remain, and some text is displayed exactly once a line was revealed. *)
Lemma consistent_truthy (s : State) :
  reveal_consistent s ->
  truthy (currentLine s) = (currentLineIndex s <? length (lines s)) /\
  truthy (displayedText s) = (0 <? currentLineIndex s).
Proof.
  intros [Hl Hb Ht Hc]. split.
  - rewrite Hc. destruct (currentLineIndex s <? length (lines s)) eqn:E.
    + apply Nat.ltb_lt in E. apply truthy_true_cons.
      apply nth_line_nonempty; assumption.
    + apply Nat.ltb_ge in E. rewrite (@nth_overflow jsstring _ _ [] E).
      reflexivity.
  - rewrite Ht. destruct (currentLineIndex s) as [|n] eqn:E; [reflexivity|].
    change (0 <? S n) with true. apply truthy_true_cons. intros J.
    apply join_nil in J; [|apply firstn_nonempty; exact Hl].
    destruct (lines s) as [|l ls]; [simpl in Hb; lia | discriminate].
Qed.

Lemma pieces_renderContent (s : State) :
  pieces false (renderContent s) =
  (if truthy (displayedText s)
   then [mkPiece false (isMarkdown s) (displayedText s)] else []) ++
  (if truthy (currentLine s)
   then [mkPiece true (isMarkdown s) (currentLine s)] else []).
Proof.
  unfold renderContent, and_then.
  destruct (isMarkdown s), (displayedText s), (currentLine s); reflexivity.
Qed.

Lemma pieces_fullscreenContent (s : State) :
  pieces false (fullscreenContent s) =
  (if truthy (displayedText s)
   then [mkPiece false (isMarkdown s) (displayedText s)] else []) ++
  (if truthy (currentLine s)
   then [mkPiece true (isMarkdown s) (currentLine s)] else []).
Proof.
  unfold fullscreenContent, and_then.
  destruct (isMarkdown s), (displayedText s), (currentLine s); reflexivity.
Qed.

(** ** Further properties of the reveal controller *)

(** X6. In every reachable state, tokenizing the displayed text gives back
    exactly the lines revealed so far. *)
Theorem displayed_text_retokenizes (s : State) :
  reachable s ->
  tokenize (displayedText s) = firstn (currentLineIndex s) (lines s).
Proof.
  intros Hr. rewrite (rc_text s (reachable_consistent s Hr)).
  apply tokenize_join. apply Forall_firstn_lines.
  exact (reachable_lines_are_lines s Hr).
Qed.

Lemma displayed_text_retokenizes_witness :
  tokenize (displayedText scenarioA_end)
  = firstn (currentLineIndex scenarioA_end) (lines scenarioA_end).
Proof.
  apply displayed_text_retokenizes.
  exists scenarioA_events. vm_compute. reflexivity.
Defined.

(** X7. In a reachable state whose surface listens, [k] reveal keys move the
    position to the smaller of position plus [k] and the number of lines;
    the lines stay, the displayed text is the join of the lines before the
    new position and the current line is the line at it (none at the end). *)
Theorem reveal_keys_progress (s : State) (ks : list KeyboardEvent) :
  reachable s ->
  listening s = true ->
  Forall (fun e => is_reveal_key e = true) ks ->
  exists s',
    run (map ReaderKeyDown ks) s = Some s' /\
    currentLineIndex s'
    = Nat.min (currentLineIndex s + length ks) (length (lines s)) /\
    lines s' = lines s /\
    displayedText s' = join [LF] (firstn (currentLineIndex s') (lines s)) /\
    currentLine s' = nth (currentLineIndex s') (lines s) [].
Proof.
  intros Hr Hl Hks. exists (Nat.iter (length ks) advance s).
  destruct (iter_advance_min (length ks) s (reachable_consistent s Hr))
    as ([_ _ Ht Hc] & Hls & Hi).
  split; [exact (run_reveal_keys ks s Hl Hks)|].
  split; [exact Hi|]. split; [exact Hls|].
  rewrite Hls in Ht, Hc. split; assumption.
Qed.

Lemma reveal_keys_progress_witness :
  exists s',
    run (map ReaderKeyDown [tabKey; spaceKey; tabKey]) scenarioA_mid = Some s' /\
    currentLineIndex s'
    = Nat.min (currentLineIndex scenarioA_mid + 3) (length (lines scenarioA_mid)) /\
    lines s' = lines scenarioA_mid /\
    displayedText s'
    = join [LF] (firstn (currentLineIndex s') (lines scenarioA_mid)) /\
    currentLine s' = nth (currentLineIndex s') (lines scenarioA_mid) [].
Proof.
  apply (reveal_keys_progress scenarioA_mid [tabKey; spaceKey; tabKey]).
  - exists [TextareaChange scenarioA; ProcessClick; ReaderKeyDown tabKey].
    vm_compute. reflexivity.
  - vm_compute. reflexivity.
  - repeat constructor.
Defined.

(** X8. While the active tab is not the reader and fullscreen is off, key
    presses that reach [handleKeyDown], reveal keys and Escape included,
    change nothing. *)
Theorem reader_keys_ignored_when_not_listening
  (s : State) (ks : list KeyboardEvent) :
  eqb (activeTab s) (str "reader") = false ->
  isFullscreen s = false ->
  run (map ReaderKeyDown ks) s = Some s.
Proof.
  intros Ht Hf.
  assert (Hl : listening s = false) by (unfold listening; rewrite Ht, Hf; reflexivity).
  induction ks as [|e ks IH]; [reflexivity|].
  simpl. rewrite (handleKeyDown_not_listening e s Hl). exact IH.
Qed.

Lemma reader_keys_ignored_when_not_listening_witness :
  run (map ReaderKeyDown [tabKey; escapeKey; spaceKey]) scenarioA_left
  = Some scenarioA_left.
Proof.
  apply reader_keys_ignored_when_not_listening; vm_compute; reflexivity.
Defined.

(** X9. With the reader tab active, a reveal key after [toggleFullscreen]
    gives the state that [toggleFullscreen] gives after the reveal key: the
    reveal does not depend on which surface is open. *)
Theorem reveal_key_commutes_with_toggle (s : State) (e : KeyboardEvent) :
  eqb (activeTab s) (str "reader") = true ->
  is_reveal_key e = true ->
  handleKeyDown e (toggleFullscreen s)
  = option_map toggleFullscreen (handleKeyDown e s).
Proof.
  intros Ht He.
  rewrite (handleKeyDown_reveal_key e s);
    [|unfold listening; rewrite Ht; reflexivity | exact He].
  rewrite (handleKeyDown_reveal_key e (toggleFullscreen s));
    [|unfold listening; simpl; rewrite Ht; reflexivity | exact He].
  simpl. rewrite toggle_then_advance. reflexivity.
Qed.

Lemma reveal_key_commutes_with_toggle_witness :
  handleKeyDown spaceKey (toggleFullscreen scenarioA_mid)
  = option_map toggleFullscreen (handleKeyDown spaceKey scenarioA_mid).
Proof.
  apply reveal_key_commutes_with_toggle; vm_compute; reflexivity.
Defined.

(** X10. After [processText] went through and any key presses on the reader
    followed, [resetReader] gives the state [processText] gave, except that
    the fullscreen flag keeps the value the key presses left. *)
Theorem reset_returns_to_processed_state
  (s0 : State) (ks : list KeyboardEvent) :
  trim (inputText s0) <> [] ->
  exists s1,
    run (map ReaderKeyDown ks) (processText s0) = Some s1 /\
    resetReader s1 = setIsFullscreen (isFullscreen s1) (processText s0).
Proof.
  intros Hin. pose proof (not_blank_of_trim _ Hin) as Hb.
  destruct (run_total (map ReaderKeyDown ks) (processText s0)) as (s1 & H).
  exists s1. split; [exact H|].
  pose proof (run_keys_frame ks _ s1 H) as F.
  rewrite (processText_not_blank s0 Hb) in F. simpl in F.
  rewrite (processText_not_blank s0 Hb).
  rewrite F. unfold resetReader, setCurrentLine, setCurrentLineIndex,
    setDisplayedText, setIsFullscreen.
  cbn [inputText displayedText currentLine lines currentLineIndex activeTab
       isRTL isMarkdown isFullscreen isFocusMode].
  rewrite or_empty_head. reflexivity.
Qed.

Lemma reset_returns_to_processed_state_witness :
  exists s1,
    run (map ReaderKeyDown [tabKey; escapeKey; spaceKey])
        (processText (setInputText scenarioA initialState)) = Some s1 /\
    resetReader s1
    = setIsFullscreen (isFullscreen s1)
        (processText (setInputText scenarioA initialState)).
Proof.
  apply (reset_returns_to_processed_state
           (setInputText scenarioA initialState)
           [tabKey; escapeKey; spaceKey]).
  vm_compute. discriminate.
Defined.

(** X11. When the input is not blank, what [processText] returns depends on
    the input text and the three flags it leaves alone only: earlier lines,
    position, displayed text, current line, tab and fullscreen flag are
    replaced whatever they were. *)
Theorem process_discards_previous_progress (s1 s2 : State) :
  trim (inputText s1) <> [] ->
  inputText s1 = inputText s2 ->
  isRTL s1 = isRTL s2 ->
  isMarkdown s1 = isMarkdown s2 ->
  isFocusMode s1 = isFocusMode s2 ->
  processText s1 = processText s2.
Proof.
  intros Hin Hi Hr Hm Hf. pose proof (not_blank_of_trim _ Hin) as Hb1.
  assert (Hb2 : blank (inputText s2) = false) by (rewrite <- Hi; exact Hb1).
  rewrite (processText_not_blank s1 Hb1), (processText_not_blank s2 Hb2).
  rewrite Hi, Hr, Hm, Hf. reflexivity.
Qed.

Lemma process_discards_previous_progress_witness :
  processText (setInputText scenarioA initialState) = processText scenarioA_left.
Proof.
  apply process_discards_previous_progress;
    try (vm_compute; reflexivity).
  vm_compute. discriminate.
Defined.

(** X12. Every event returns a state; the lines are either the ones before,
    or the event is the Process click and the lines are the tokenizer's
    output on the input text, which is then not empty.  So once there are
    lines, no event leaves the reader without lines. *)
Theorem lines_replaced_by_process_only (s : State) (ev : Event) :
  exists s',
    dispatch ev s = Some s' /\
    (lines s' = lines s \/
     (ev = ProcessClick /\ lines s' = tokenize (inputText s) /\ lines s' <> [])) /\
    (readerHasContent s = true -> readerHasContent s' = true).
Proof.
  destruct (run_total [ev] s) as (s' & H). simpl in H.
  destruct (dispatch ev s) as [s1|] eqn:E; [|discriminate].
  exists s1. split; [reflexivity|].
  destruct (dispatch_lines_cases ev s s1 E) as [Hl | (Hev & Hb & Hl)].
  - split; [left; exact Hl|]. unfold readerHasContent. rewrite Hl. tauto.
  - assert (Hne : lines s1 <> []) by (rewrite Hl; apply tokenize_not_blank; exact Hb).
    split; [right; tauto|]. intros _. unfold readerHasContent.
    destruct (lines s1); [congruence | reflexivity].
Qed.

Lemma lines_replaced_by_process_only_witness :
  exists s',
    dispatch ProcessClick (setInputText (str "x") scenarioA_end) = Some s' /\
    (lines s' = lines (setInputText (str "x") scenarioA_end) \/
     (ProcessClick = ProcessClick /\
      lines s' = tokenize (inputText (setInputText (str "x") scenarioA_end)) /\
      lines s' <> [])) /\
    (readerHasContent (setInputText (str "x") scenarioA_end) = true ->
     readerHasContent s' = true).
Proof.
  exact (lines_replaced_by_process_only
           (setInputText (str "x") scenarioA_end) ProcessClick).
Defined.

(** X13. In every reachable state the current line is not empty exactly
    while the position is below the number of lines, and the displayed text
    is not empty exactly when the position is above 0: these are the tests
    the rendering and the scroll effect make on the two strings. *)
Theorem highlight_iff_lines_remain (s : State) :
  reachable s ->
  truthy (currentLine s) = (currentLineIndex s <? length (lines s)) /\
  truthy (displayedText s) = (0 <? currentLineIndex s).
Proof.
  intros Hr. exact (consistent_truthy s (reachable_consistent s Hr)).
Qed.

Lemma highlight_iff_lines_remain_witness :
  truthy (currentLine scenarioA_mid)
  = (currentLineIndex scenarioA_mid <? length (lines scenarioA_mid)) /\
  truthy (displayedText scenarioA_mid) = (0 <? currentLineIndex scenarioA_mid).
Proof.
  apply highlight_iff_lines_remain.
  exists [TextareaChange scenarioA; ProcessClick; ReaderKeyDown tabKey].
  vm_compute. reflexivity.
Defined.

(** X14. In every state the Escape key gives the same result through
    [handleKeyDown] and through the document listener: the state with the
    fullscreen flag false and every other cell as before. *)
Theorem escape_handlers_agree (s : State) :
  handleKeyDown escapeKey s = Some (setIsFullscreen false s) /\
  handleDocumentKeyDown escapeKey s = setIsFullscreen false s.
Proof.
  split.
  - destruct (listening s) eqn:Hl.
    + apply handleKeyDown_escape; [exact Hl | reflexivity | reflexivity].
    + rewrite (handleKeyDown_not_listening escapeKey s Hl).
      unfold listening in Hl. apply orb_false_iff in Hl as [_ Hf].
      destruct s; simpl in *; subst; reflexivity.
  - unfold handleDocumentKeyDown.
    destruct (isFullscreen s) eqn:Hf; [reflexivity|].
    destruct s; simpl in *; subst; reflexivity.
Qed.

(** X15. From any state, reachable or not, any sequence of events returns a
    state: no handler stores the result of reading [lines] at or past its
    length. *)
Theorem events_never_read_outside_lines (evs : list Event) (s : State) :
  exists s', run evs s = Some s'.
Proof. exact (run_total evs s). Qed.

(** ** Further properties of the rendering *)

(** X16. The Process button is disabled exactly when [processText] would
    return at its first line: disabled, the handler returns the state
    unchanged; enabled, it returns a state with at least one line, a current
    line that is not empty, the fullscreen reader shown and key presses
    listened to. *)
Theorem process_button_matches_handler (s : State) :
  (processDisabled s = true -> processText s = s) /\
  (processDisabled s = false ->
   readerHasContent (processText s) = true /\
   fullscreenShown (processText s) = true /\
   truthy (currentLine (processText s)) = true /\
   listening (processText s) = true).
Proof.
  unfold processDisabled. split; intros H.
  - apply processText_blank. apply trim_nil.
    apply truthy_false_nil. apply negb_true_iff. exact H.
  - apply negb_false_iff, truthy_true_cons in H.
    pose proof (not_blank_of_trim _ H) as Hb.
    pose proof (tokenize_not_blank _ Hb) as Hne.
    pose proof (tokenize_nonempty_lines (inputText s)) as Hall.
    rewrite (processText_not_blank s Hb).
    unfold readerHasContent, fullscreenShown, listening. simpl.
    destruct (tokenize (inputText s)) as [|l ls]; [congruence|].
    inversion Hall as [|? ? Hl _]; subst.
    repeat split. simpl. apply truthy_true_cons. exact Hl.
Qed.

Lemma process_button_matches_handler_witness :
  (processDisabled (setInputText scenarioB initialState) = true /\
   processText (setInputText scenarioB initialState)
   = setInputText scenarioB initialState) /\
  (processDisabled (setInputText scenarioA initialState) = false /\
   fullscreenShown (processText (setInputText scenarioA initialState)) = true).
Proof.
  split.
  - split; [reflexivity|].
    apply (proj1 (process_button_matches_handler
                    (setInputText scenarioB initialState))).
    reflexivity.
  - split; [reflexivity|].
    apply (proj2 (process_button_matches_handler
                    (setInputText scenarioA initialState))).
    reflexivity.
Defined.

(** X17. In every state the inline reader and the fullscreen reader put the
    same pieces of text on screen, in the same order, highlighted alike and
    through the same renderer. *)
Theorem surfaces_show_same_pieces (s : State) :
  pieces false (renderContent s) = pieces false (fullscreenContent s).
Proof.
  rewrite pieces_renderContent, pieces_fullscreenContent. reflexivity.
Qed.

(** X18. In every reachable state the texts on screen, joined with line
    breaks, are the first position plus one lines (all lines at the end),
    and the highlighted text is the line at the position, if there is
    one. *)
Theorem screen_shows_first_lines (s : State) :
  reachable s ->
  join [LF] (map text (pieces false (renderContent s)))
  = join [LF] (firstn (currentLineIndex s + 1) (lines s)) /\
  map text (filter highlighted (pieces false (renderContent s)))
  = match nth_error (lines s) (currentLineIndex s) with
    | Some l => [l]
    | None => []
    end.
Proof.
  intros Hr. pose proof (reachable_consistent s Hr) as Hc.
  destruct (consistent_truthy s Hc) as (Hcl & Hdt).
  destruct Hc as [Hl Hb Ht Hcur].
  rewrite pieces_renderContent.
  destruct (currentLineIndex s <? length (lines s)) eqn:Hi.
  - apply Nat.ltb_lt in Hi. rewrite Hcl. split.
    + rewrite <- (advance_text (lines s) (currentLineIndex s) Hl Hi).
      rewrite <- Ht, <- Hcur. destruct (truthy (displayedText s)); reflexivity.
    + rewrite (@nth_error_nth' jsstring _ _ [] Hi), <- Hcur.
      destruct (truthy (displayedText s)); reflexivity.
  - apply Nat.ltb_ge in Hi. rewrite Hcl, app_nil_r. split.
    + rewrite firstn_all2 by lia. rewrite Ht at 2.
      rewrite (firstn_all2 (n := currentLineIndex s)) in * by lia.
      rewrite Ht. destruct (join [LF] (lines s)); reflexivity.
    + apply nth_error_None in Hi. rewrite Hi.
      destruct (truthy (displayedText s)); reflexivity.
Qed.

Lemma screen_shows_first_lines_witness :
  join [LF] (map text (pieces false (renderContent scenarioA_mid)))
  = join [LF] (firstn (currentLineIndex scenarioA_mid + 1) (lines scenarioA_mid)) /\
  map text (filter highlighted (pieces false (renderContent scenarioA_mid)))
  = match nth_error (lines scenarioA_mid) (currentLineIndex scenarioA_mid) with
    | Some l => [l]
    | None => []
    end.
Proof.
  apply screen_shows_first_lines.
  exists [TextareaChange scenarioA; ProcessClick; ReaderKeyDown tabKey].
  vm_compute. reflexivity.
Defined.
